(** * goauth: the authentication contract of package [auth]

    A shallow embedding of [auth.go]: the principal record, the error
    taxonomy, the configuration record and the two context helpers
    [SetUserContext] / [UserFromContext], together with the part of Go's
    [context] package and of interface values that these helpers run on.

    Go values that live behind pointers are kept in explicit stores:
    a context returned by [context.WithValue] is a pointer to a freshly
    allocated node, so deriving a context is an allocation in a heap of
    nodes and reading a value is a walk along parent pointers.

    The contexts of the model are those of package context: the two empty
    contexts and what [WithValue], [WithCancel] and their kin derive from
    them.  The nil interface value is in the model as well; it is no
    context, and both helpers panic on it.  A type of the caller's own
    that implements [context.Context] is outside the model.

    The package declares the interface [Authenticator] and implements none
    of its methods.  The middleware of a scheme is therefore modelled from
    the spec; every definition of that kind says so in its comment. *)

From Stdlib Require Import ZArith.
From stdpp Require Import base strings gmap list.

(** ** Results of running Go code *)

(** A call either returns, or panics.  [Stuck] is not a Go behaviour: it is
    what the walk over a heap answers when the heap is not one that Go can
    build (a dangling or cyclic parent pointer); [value_total] below shows
    that it never shows up on a well-formed heap. *)
Inductive outcome (A : Type) : Type :=
| Ok (a : A)
| Panic (msg : string)
| Stuck.
Arguments Ok {A} a.
Arguments Panic {A} msg.
Arguments Stuck {A}.

#[global] Instance outcome_ret : MRet outcome := fun A a => Ok a.

#[global] Instance outcome_bind : MBind outcome := fun A B k m =>
  match m with
  | Ok a => k a
  | Panic msg => Panic msg
  | Stuck => Stuck
  end.

#[global] Instance outcome_fmap : FMap outcome := fun A B f m =>
  match m with
  | Ok a => Ok (f a)
  | Panic msg => Panic msg
  | Stuck => Stuck
  end.

(** ** Pointers and interface values *)

Abbreviation addr := nat.

(** A pointer to an [AuthenticatedUser]: nil, or the address of a
    principal. *)
Inductive userPtr : Type :=
| nilUser
| userAt (a : addr).

(** A value of type [interface{}] is a dynamic type together with a value of
    that type; one constructor per dynamic type.  [anyContextKey] is the
    unexported type [contextKey] of this package (its underlying type is
    string, yet it is a different type from string); [anyOther t v] stands
    for a value [v] of any further type [t].  All these types are
    comparable, so [==] on two interface values is equality of the dynamic
    type and of the value, and any of them but nil may serve as a key. *)
Inductive any : Type :=
| anyNil
| anyString (s : string)
| anyInt (z : Z)
| anyBool (b : bool)
| anyContextKey (s : string)
| anyUser (p : userPtr)
| anyOther (t : positive) (v : string).

#[global] Instance userPtr_eq_dec : EqDecision userPtr.
Proof. solve_decision. Defined.

#[global] Instance any_eq_dec : EqDecision any.
Proof. solve_decision. Defined.

(** ** The data model of auth.go *)

Record AuthenticatedUser : Type := mkAuthenticatedUser {
  ID : string;
  Username : string;
  Roles : list string;
  Metadata : gmap string any
}.

(** The [error] interface, as far as this package builds values of it:
    nil, an error made elsewhere ([errors.New]), or an [AuthError]. *)
Inductive error : Type :=
| nilError
| errorString (s : string)
| authError (code : Z) (message : string) (cause : error).

Record AuthError : Type := mkAuthError {
  Code : Z;
  Message : string;
  Err : error
}.

Definition AuthError_Error (e : AuthError) : string := Message e.

Definition AuthError_Unwrap (e : AuthError) : error := Err e.

(** An [AuthError] stored in an [error] interface value. *)
Definition asError (e : AuthError) : error :=
  authError (Code e) (Message e) (Err e).

(** net/http status constants used by the package. *)
Definition StatusUnauthorized : Z := 401%Z.
Definition StatusForbidden : Z := 403%Z.

Definition ErrInvalidCredentials : AuthError :=
  {| Code := StatusUnauthorized; Message := "invalid credentials"; Err := nilError |}.
Definition ErrExpiredCredentials : AuthError :=
  {| Code := StatusUnauthorized; Message := "expired credentials"; Err := nilError |}.
Definition ErrMissingCredentials : AuthError :=
  {| Code := StatusUnauthorized; Message := "crendentials not provided"; Err := nilError |}.
Definition ErrAccessDenied : AuthError :=
  {| Code := StatusForbidden; Message := "access denied"; Err := nilError |}.

(** private key for context *)
Definition userContextKey : any := anyContextKey "authenticated_user".

(** ** Package context *)

Module context.

(** A [context.Context] interface value: nil, one of the two empty
    contexts, or a pointer to a derived context. *)
Inductive Context : Type :=
| nilContext
| backgroundCtx
| todoCtx
| ctxRef (a : addr).

(** A derived context.  [valueCtx] is what [WithValue] allocates;
    [cancelCtx] stands for the contexts of [WithCancel], [WithDeadline],
    [WithTimeout] and [WithoutCancel]: they answer a lookup themselves only
    for a key private to package context, and hand every other key to
    their parent. *)
Inductive ctxNode : Type :=
| valueCtx (parent : Context) (key val : any)
| cancelCtx (parent : Context).

(** The heap of derived contexts: address [a] holds the node at index
    [a]; allocation appends. *)
Abbreviation heap := (list ctxNode).

Definition parentOf (n : ctxNode) : Context :=
  match n with
  | valueCtx p _ _ => p
  | cancelCtx p => p
  end.

Definition Background : Context := backgroundCtx.
Definition TODO : Context := todoCtx.

Definition WithValue (h : heap) (parent : Context) (key val : any)
  : outcome (heap * Context) :=
  match parent with
  | nilContext => Panic "cannot create context from nil parent"
  | _ =>
    match key with
    | anyNil => Panic "nil key"
    | _ => Ok (h ++ [valueCtx parent key val], ctxRef (length h))
    end
  end.

Definition WithCancel (h : heap) (parent : Context) : outcome (heap * Context) :=
  match parent with
  | nilContext => Panic "cannot create context from nil parent"
  | _ => Ok (h ++ [cancelCtx parent], ctxRef (length h))
  end.

(** The loop of [context.value]: walk up the parents until a node with
    the key, or an empty context, is reached.  [fuel] bounds the number
    of nodes visited. *)
Fixpoint value (fuel : nat) (h : heap) (c : Context) (key : any) : outcome any :=
  match c with
  | nilContext => Panic "invalid memory address or nil pointer dereference"
  | backgroundCtx | todoCtx => Ok anyNil
  | ctxRef a =>
    match fuel with
    | O => Stuck
    | S fuel' =>
      match h !! a with
      | None => Stuck
      | Some (valueCtx p k v) =>
        if decide (key = k) then Ok v else value fuel' h p key
      | Some (cancelCtx p) => value fuel' h p key
      end
    end
  end.

(** [ctx.Value(key)].  A chain of parents never has more nodes than the
    heap. *)
Definition Value (h : heap) (c : Context) (key : any) : outcome any :=
  value (length h) h c key.

(** [c] points into [h] (or needs no heap). *)
Definition allocated (h : heap) (c : Context) : Prop :=
  match c with
  | ctxRef a => a < length h
  | _ => True
  end.

(** [c] was there before address [a] was allocated, and is not nil. *)
Definition older (a : addr) (c : Context) : Prop :=
  match c with
  | nilContext => False
  | ctxRef p => p < a
  | _ => True
  end.

(** The heaps Go can build: every node was derived from a non-nil
    context allocated before it. *)
Definition wf (h : heap) : Prop :=
  ∀ a n, h !! a = Some n → older a (parentOf n).

End context.

Import context.

(** ** The context helpers of auth.go *)

(** The comma-ok type assertion of an interface value to a pointer to
    [AuthenticatedUser]. *)
Definition assertUser (x : any) : userPtr * bool :=
  match x with
  | anyUser p => (p, true)
  | _ => (nilUser, false)
  end.

(** UserFromContext extract a authenticated user from context *)
Definition UserFromContext (h : heap) (ctx : Context) : outcome (userPtr * bool) :=
  x ← Value h ctx userContextKey; Ok (assertUser x).

(** SetUserContext add a athenticated user in context *)
Definition SetUserContext (h : heap) (ctx : Context) (user : userPtr)
  : outcome (heap * Context) :=
  WithValue h ctx userContextKey (anyUser user).


(** The least fuel with which [value] can start from [c]. *)
Definition rank (c : Context) : nat :=
  match c with
  | ctxRef a => S a
  | _ => 0
  end.

(** The heaps that a program builds: it starts with none and derives
    contexts from contexts it holds. *)
Inductive built : heap → Prop :=
| built_empty : built []
| built_WithValue h c key val h' c' :
    built h → allocated h c → WithValue h c key val = Ok (h', c') → built h'
| built_WithCancel h c h' c' :
    built h → allocated h c → WithCancel h c = Ok (h', c') → built h'.

(** [ctx] passed through [SetUserContext]: somewhere on its chain of
    parents sits a node that [SetUserContext] allocated.  The type of
    [userContextKey] is unexported, so no code outside the package can
    allocate such a node by another route. *)
Inductive PassedThrough (h : heap) : Context → Prop :=
| passed_here a p u :
    h !! a = Some (valueCtx p userContextKey (anyUser u)) →
    PassedThrough h (ctxRef a)
| passed_above a n :
    h !! a = Some n →
    PassedThrough h (parentOf n) →
    PassedThrough h (ctxRef a).

(** ** The roles of a principal *)

(** The spec reads [Roles] as a set; this is the set a slice stands for. *)
Definition roleSet (u : AuthenticatedUser) : gset string := list_to_set (Roles u).

(** ** HTTP, as far as the contract mentions it *)

(** A [*http.Request]: its context and its header fields. *)
Record Request : Type := mkRequest {
  reqContext : Context;
  reqHeader : list (string * string)
}.

(** What a handler wrote to its [http.ResponseWriter]. *)
Record Response : Type := mkResponse {
  respStatus : Z;
  respBody : string
}.

(** [http.Handler]: [ServeHTTP(w, r)], run against the heap of contexts. *)
Definition Handler : Type := heap → Request → outcome Response.

(** [r.Context()]: never nil, the background context when none was set. *)
Definition Request_Context (r : Request) : Context :=
  match reqContext r with
  | nilContext => Background
  | c => c
  end.

(** [r.WithContext(ctx)] *)
Definition Request_WithContext (r : Request) (ctx : Context) : Request :=
  {| reqContext := ctx; reqHeader := reqHeader r |}.

(** AuthOptions general settings for any authenticator.  The two handlers
    are interface values and the extractor is a func value: each may be
    nil ([None]). *)
Record AuthOptions : Type := mkAuthOptions {
  CredentialsDuration : Z;
  UnauthorizedHandler : option Handler;
  ForbiddenHandler : option Handler;
  CredentialsExtractor : option (Request → any * error)
}.

(** The zero value [AuthOptions{}]: nothing configured. *)
Definition zeroAuthOptions : AuthOptions :=
  {| CredentialsDuration := 0%Z;
     UnauthorizedHandler := None;
     ForbiddenHandler := None;
     CredentialsExtractor := None |}.

(** The interface [Authenticator]: six methods, of which the source fixes
    the types and nothing else. *)
Class Authenticator : Type := {
  Authenticate : heap → Context → Request → userPtr * error;
  GenerateCredentials : userPtr → any * error;
  ValidateCredentials : any → userPtr * error;
  WriteCredentials : Response → any → Response * error;
  Middleware : Handler → Handler;
  MiddlewareWithRoles : list string → Handler → Handler
}.

(** ** The middleware of a scheme *)

(** Modelled from the spec: the states in which the dispatch of section
    4.5 ends, of which the package has no counterpart.  [Proceed] is the
    state Authenticated (or Authorized, when role-gated), with the heap and
    the request handed to the downstream handler. *)
Inductive verdict : Type :=
| Rejected
| Denied
| Proceed (h : heap) (r : Request).

(** Modelled from the spec: the default of [UnauthorizedHandler], which no
    file of the package defines: a generic 401 response. *)
Definition defaultUnauthorizedHandler : Handler :=
  fun _ _ => Ok {| respStatus := StatusUnauthorized; respBody := "Unauthorized" |}.

(** Modelled from the spec: the default of [ForbiddenHandler], which no
    file of the package defines: a generic 403 response. *)
Definition defaultForbiddenHandler : Handler :=
  fun _ _ => Ok {| respStatus := StatusForbidden; respBody := "Forbidden" |}.

(** Modelled from the spec: membership of a role in the granted roles, by
    case-sensitive exact match.  The package has no function that looks at
    [Roles]. *)
Definition hasRole (granted : list string) (role : string) : bool :=
  existsb (String.eqb role) granted.

(** Modelled from the spec: the role check of [MiddlewareWithRoles], one
    common element of the required and the granted roles. *)
Definition rolesIntersect (required granted : list string) : bool :=
  existsb (hasRole granted) required.

Section scheme.

(** What a concrete scheme brings: its options, its [Authenticate], and the
    memory in which its principals live. *)
Variable opts : AuthOptions.
Variable users : gmap addr AuthenticatedUser.
Variable authenticate : heap → Context → Request → userPtr * error.

(** Reading a principal through its pointer, as [user.Roles] does. *)
Definition deref (p : userPtr) : outcome AuthenticatedUser :=
  match p with
  | nilUser => Panic "invalid memory address or nil pointer dereference"
  | userAt a =>
    match users !! a with
    | Some u => Ok u
    | None => Stuck
    end
  end.

(** Modelled from the spec: the handler that runs when authentication
    fails; the package declares the field and never reads it. *)
Definition unauthorizedHandler : Handler :=
  default defaultUnauthorizedHandler (UnauthorizedHandler opts).

(** Modelled from the spec: the handler that runs when the role check
    fails; the package declares the field and never reads it. *)
Definition forbiddenHandler : Handler :=
  default defaultForbiddenHandler (ForbiddenHandler opts).

(** Modelled from the spec: the step from Authenticating to Authenticated,
    missing from the package: the principal is attached to the context of
    the request, with the [SetUserContext] of the package. *)
Definition attach (h : heap) (r : Request) (p : userPtr) : outcome verdict :=
  '(h', ctx') ← SetUserContext h (Request_Context r) p;
  Ok (Proceed h' (Request_WithContext r ctx')).

(** Modelled from the spec: the dispatch of [Middleware], of which the
    package has the declaration in the interface and no implementation. *)
Definition dispatch (h : heap) (r : Request) : outcome verdict :=
  match authenticate h (Request_Context r) r with
  | (p, nilError) => attach h r p
  | (_, _) => Ok Rejected
  end.

(** Modelled from the spec: the dispatch of [MiddlewareWithRoles], of which
    the package has the declaration in the interface and no
    implementation. *)
Definition dispatchWithRoles (roles : list string) (h : heap) (r : Request)
  : outcome verdict :=
  match authenticate h (Request_Context r) r with
  | (p, nilError) =>
    v ← attach h r p;
    u ← deref p;
    if rolesIntersect roles (Roles u) then Ok v else Ok Denied
  | (_, _) => Ok Rejected
  end.

(** Modelled from the spec: the handler that runs in each final state,
    missing from the package. *)
Definition serve (next : Handler) (h : heap) (r : Request) (v : verdict)
  : outcome Response :=
  match v with
  | Rejected => unauthorizedHandler h r
  | Denied => forbiddenHandler h r
  | Proceed h' r' => next h' r'
  end.

(** Modelled from the spec: [Middleware()], missing from the package. *)
Definition schemeMiddleware (next : Handler) : Handler :=
  fun h r => v ← dispatch h r; serve next h r v.

(** Modelled from the spec: [MiddlewareWithRoles(roles...)], missing from
    the package. *)
Definition schemeMiddlewareWithRoles (roles : list string) (next : Handler) : Handler :=
  fun h r => v ← dispatchWithRoles roles h r; serve next h r v.

End scheme.

(** Sample principals. *)
Definition userDup : AuthenticatedUser :=
  {| ID := "1"; Username := "ana"; Roles := ["admin"; "admin"]; Metadata := ∅ |}.
Definition userAB : AuthenticatedUser :=
  {| ID := "2"; Username := "bia"; Roles := ["admin"; "editor"]; Metadata := ∅ |}.
Definition userBA : AuthenticatedUser :=
  {| ID := "2"; Username := "bia"; Roles := ["editor"; "admin"]; Metadata := ∅ |}.
Definition admin : AuthenticatedUser :=
  {| ID := "4"; Username := "rui"; Roles := ["admin"]; Metadata := ∅ |}.
Definition editor : AuthenticatedUser :=
  {| ID := "3"; Username := "edu"; Roles := ["editor"]; Metadata := ∅ |}.

(** [ctx] carries [u]: the nearest node on its chain of parents whose key
    is [userContextKey] holds the principal pointer [u]. *)
Inductive Carries (h : heap) : Context → userPtr → Prop :=
| carries_here a p u :
    h !! a = Some (valueCtx p userContextKey (anyUser u)) →
    Carries h (ctxRef a) u
| carries_value a p k v u :
    h !! a = Some (valueCtx p k v) →
    k ≠ userContextKey →
    Carries h p u →
    Carries h (ctxRef a) u
| carries_cancel a p u :
    h !! a = Some (cancelCtx p) →
    Carries h p u →
    Carries h (ctxRef a) u.

(** [derives h h']: the heap [h'] is [h] after any number of further
    derivations, by this package or by any other. *)
Inductive derives : heap → heap → Prop :=
| derives_refl h : derives h h
| derives_WithValue h h1 c key val h' c' :
    derives h h1 → WithValue h1 c key val = Ok (h', c') → derives h h'
| derives_WithCancel h h1 c h' c' :
    derives h h1 → WithCancel h1 c = Ok (h', c') → derives h h'.

(** ** Heaps of contexts: what allocation preserves *)

Section heap_facts.
Implicit Types (h : heap) (c : Context) (key : any) (n : ctxNode).

Lemma allocated_rank h c : allocated h c ↔ rank c ≤ length h.
Proof. destruct c; simpl; lia. Qed.

Lemma older_rank a c : older a c → rank c ≤ a.
Proof. destruct c; simpl; lia. Qed.

Lemma older_not_nil a c : older a c → c ≠ nilContext.
Proof. by destruct c. Qed.

Lemma older_allocated h a c : a < length h → older a c → allocated h c.
Proof. destruct c; simpl; lia. Qed.

Lemma wf_empty : wf [].
Proof. intros a n Ha. by rewrite lookup_nil in Ha. Qed.

Lemma wf_alloc h n : wf h → older (length h) (parentOf n) → wf (h ++ [n]).
Proof.
  intros Hwf Hn a m Ha.
  destruct (decide (a < length h)) as [Hlt|Hge].
  - rewrite lookup_app_l in Ha by done. by apply Hwf.
  - apply lookup_lt_Some in Ha as Hlen. rewrite length_app in Hlen. simpl in Hlen.
    assert (a = length h) as -> by lia.
    rewrite list_lookup_middle in Ha by done. by simplify_eq.
Qed.

Lemma allocated_older h c : allocated h c → c ≠ nilContext → older (length h) c.
Proof. by destruct c. Qed.

Lemma allocated_grow h h2 c : allocated h c → allocated (h ++ h2) c.
Proof. destruct c; simpl; try done. rewrite length_app. lia. Qed.

(** More fuel than the rank changes nothing. *)
Lemma value_fuel h c key f1 f2 :
  wf h → rank c ≤ f1 → rank c ≤ f2 → value f1 h c key = value f2 h c key.
Proof.
  intros Hwf. revert c f2.
  induction f1 as [|f1 IH]; intros c f2 H1 H2; destruct c as [| | |a], f2 as [|f2];
    cbn [value rank] in *; try done; try lia.
  destruct (h !! a) as [n|] eqn:Ha; [|done].
  pose proof (older_rank _ _ (Hwf _ _ Ha)) as Hp.
  destruct n as [p k v|p]; cbn [parentOf] in Hp.
  - case_decide; [done|]. apply IH; lia.
  - apply IH; lia.
Qed.

(** Nodes allocated later are never visited. *)
Lemma value_frame h h2 c key f :
  wf h → allocated h c → value f (h ++ h2) c key = value f h c key.
Proof.
  intros Hwf. revert c.
  induction f as [|f IH]; intros c Hc; destruct c as [| | |a]; cbn [value allocated] in *; try done.
  rewrite lookup_app_l by done.
  destruct (h !! a) as [n|] eqn:Ha; [|done].
  pose proof (older_allocated h _ _ Hc (Hwf _ _ Ha)) as Hp.
  destruct n as [p k v|p]; cbn [parentOf] in Hp.
  - case_decide; [done|]. by apply IH.
  - by apply IH.
Qed.

(** On a well-formed heap the walk ends with a value: it neither panics
    nor runs out of fuel. *)
Lemma value_total h c key f :
  wf h → allocated h c → c ≠ nilContext → rank c ≤ f →
  ∃ x, value f h c key = Ok x.
Proof.
  intros Hwf. revert c.
  induction f as [|f IH]; intros c Hc Hnil Hf; destruct c as [| | |a];
    cbn [value allocated rank] in *; try done; try lia; try by eexists.
  destruct (lookup_lt_is_Some_2 h a Hc) as [n Ha]. rewrite Ha.
  pose proof (Hwf _ _ Ha) as Hold.
  pose proof (older_allocated h _ _ Hc Hold) as Hp.
  pose proof (older_not_nil _ _ Hold) as Hpn.
  pose proof (older_rank _ _ Hold) as Hpr.
  destruct n as [p k v|p]; cbn [parentOf] in *.
  - case_decide; [by eexists|]. apply IH; [done..|lia].
  - apply IH; [done..|lia].
Qed.

Lemma Value_total h c key :
  wf h → allocated h c → c ≠ nilContext → ∃ x, Value h c key = Ok x.
Proof.
  intros Hwf Hc Hnil. apply value_total; [done..|]. by apply allocated_rank.
Qed.

Lemma Value_frame h h2 c key :
  wf h → allocated h c → Value (h ++ h2) c key = Value h c key.
Proof.
  intros Hwf Hc. unfold Value. rewrite value_frame by done.
  apply value_fuel; [done| |by apply allocated_rank].
  apply allocated_rank in Hc. rewrite length_app. lia.
Qed.

(** Reading the node that was allocated last. *)
Lemma Value_newest_hit h p k v :
  Value (h ++ [valueCtx p k v]) (ctxRef (length h)) k = Ok v.
Proof.
  unfold Value. rewrite length_app, Nat.add_1_r. simpl.
  rewrite list_lookup_middle by done. by rewrite decide_True.
Qed.

Lemma Value_newest_miss h p k v key :
  wf h → allocated h p → key ≠ k →
  Value (h ++ [valueCtx p k v]) (ctxRef (length h)) key = Value h p key.
Proof.
  intros Hwf Hp Hne. unfold Value. rewrite length_app, Nat.add_1_r. simpl.
  rewrite list_lookup_middle by done. rewrite decide_False by done.
  by apply value_frame.
Qed.

Lemma Value_newest_cancel h p key :
  wf h → allocated h p →
  Value (h ++ [cancelCtx p]) (ctxRef (length h)) key = Value h p key.
Proof.
  intros Hwf Hp. unfold Value. rewrite length_app, Nat.add_1_r. simpl.
  rewrite list_lookup_middle by done. by apply value_frame.
Qed.

(** [WithValue] and [WithCancel] append one node and keep the heap
    well-formed. *)
Lemma WithValue_ok h c key val :
  c ≠ nilContext → key ≠ anyNil →
  WithValue h c key val = Ok (h ++ [valueCtx c key val], ctxRef (length h)).
Proof. by destruct c, key. Qed.

Lemma WithValue_inv h c key val h' c' :
  WithValue h c key val = Ok (h', c') →
  c ≠ nilContext ∧ h' = h ++ [valueCtx c key val] ∧ c' = ctxRef (length h).
Proof. destruct c, key; simpl; intros; by simplify_eq. Qed.

Lemma WithValue_wf h c key val h' c' :
  wf h → allocated h c → WithValue h c key val = Ok (h', c') →
  wf h' ∧ allocated h' c' ∧ c' ≠ nilContext.
Proof.
  intros Hwf Hc (Hnil & -> & ->)%WithValue_inv. split_and!; [|simpl|done].
  - apply wf_alloc; [done|]. by apply allocated_older.
  - rewrite length_app. simpl. lia.
Qed.

Lemma WithCancel_wf h c h' c' :
  wf h → allocated h c → WithCancel h c = Ok (h', c') →
  wf h' ∧ allocated h' c' ∧ c' ≠ nilContext.
Proof.
  intros Hwf Hc Heq.
  assert (c ≠ nilContext ∧ h' = h ++ [cancelCtx c] ∧ c' = ctxRef (length h))
    as (Hnil & -> & ->) by (destruct c; simpl in Heq; by simplify_eq).
  split_and!; [|simpl|done].
  - apply wf_alloc; [done|]. by apply allocated_older.
  - rewrite length_app. simpl. lia.
Qed.

(** Every heap that a program builds is well-formed. *)
Lemma built_wf h : built h → wf h.
Proof.
  induction 1 as [|h c key val h' c' _ IH Hc Heq|h c h' c' _ IH Hc Heq].
  - apply wf_empty.
  - by destruct (WithValue_wf h c key val h' c' IH Hc Heq).
  - by destruct (WithCancel_wf h c h' c' IH Hc Heq).
Qed.

End heap_facts.

(** ** The two context helpers *)

Section context_helpers.
Implicit Types (h : heap) (ctx c : Context) (u : userPtr) (key : any).

Lemma userContextKey_not_nil : userContextKey ≠ anyNil.
Proof. done. Qed.

Lemma SetUserContext_ok h ctx u :
  ctx ≠ nilContext →
  SetUserContext h ctx u
  = Ok (h ++ [valueCtx ctx userContextKey (anyUser u)], ctxRef (length h)).
Proof. intros Hnil. by apply WithValue_ok. Qed.

Lemma SetUserContext_wf h ctx u h' ctx' :
  wf h → allocated h ctx → SetUserContext h ctx u = Ok (h', ctx') →
  wf h' ∧ allocated h' ctx' ∧ ctx' ≠ nilContext.
Proof. apply WithValue_wf. Qed.

Lemma UserFromContext_newest h ctx u :
  UserFromContext (h ++ [valueCtx ctx userContextKey (anyUser u)]) (ctxRef (length h))
  = Ok (u, true).
Proof. unfold UserFromContext. by rewrite Value_newest_hit. Qed.

(** A layer under another key is transparent for [UserFromContext]. *)
Lemma UserFromContext_other_key h ctx k v :
  wf h → allocated h ctx → k ≠ userContextKey →
  UserFromContext (h ++ [valueCtx ctx k v]) (ctxRef (length h)) = UserFromContext h ctx.
Proof.
  intros Hwf Hc Hk. unfold UserFromContext.
  by rewrite Value_newest_miss.
Qed.

Lemma UserFromContext_frame h h2 c :
  wf h → allocated h c → UserFromContext (h ++ h2) c = UserFromContext h c.
Proof. intros Hwf Hc. unfold UserFromContext. by rewrite Value_frame. Qed.

(** Both helpers panic on the nil interface value: it is no context, and
    package context refuses it as a parent. *)
Lemma SetUserContext_nil h u :
  SetUserContext h nilContext u = Panic "cannot create context from nil parent".
Proof. done. Qed.

Lemma UserFromContext_nil h :
  UserFromContext h nilContext = Panic "invalid memory address or nil pointer dereference".
Proof. unfold UserFromContext, Value. by destruct (length h). Qed.

(** The walk of a context that never passed through [SetUserContext] ends
    on a value that is no principal. *)
Lemma value_absent h f c :
  wf h → allocated h c → c ≠ nilContext → rank c ≤ f → ¬ PassedThrough h c →
  ∃ x, value f h c userContextKey = Ok x ∧ assertUser x = (nilUser, false).
Proof.
  intros Hwf. revert c.
  induction f as [|f IH]; intros c Hc Hnil Hf Hpass; destruct c as [| | |a];
    cbn [value allocated rank] in *; try done; try lia; try by eexists.
  destruct (lookup_lt_is_Some_2 h a Hc) as [n Ha]. rewrite Ha.
  pose proof (Hwf _ _ Ha) as Hold.
  pose proof (older_allocated h _ _ Hc Hold) as Hp.
  pose proof (older_not_nil _ _ Hold) as Hpn.
  pose proof (older_rank _ _ Hold) as Hpr.
  assert (¬ PassedThrough h (parentOf n)) as Habove
    by (intros HP; apply Hpass; by eapply passed_above).
  destruct n as [p k v|p]; cbn [parentOf] in *.
  - case_decide as Hk; [|apply IH; [done..|lia|done]].
    subst k. exists v. split; [done|].
    destruct v as [| | | | |q|]; try done.
    exfalso. apply Hpass. by eapply passed_here.
  - apply IH; [done..|lia|done].
Qed.

Lemma UserFromContext_absent h c :
  wf h → allocated h c → c ≠ nilContext → ¬ PassedThrough h c →
  UserFromContext h c = Ok (nilUser, false).
Proof.
  intros Hwf Hc Hnil Hpass.
  destruct (value_absent h (length h) c) as (x & Hx & Hassert); [done..| |done|].
  { by apply allocated_rank. }
  unfold UserFromContext, Value. rewrite Hx. simpl. by rewrite Hassert.
Qed.

End context_helpers.

(** C1. Context round-trip: for every (non-nil) context [ctx], on any heap,
    and every principal pointer [u], [SetUserContext] returns a derived
    context on which [UserFromContext] returns [(u, true)]: the principal
    that was attached, with the presence flag set. *)
Theorem SetUserContext_roundtrip (h : heap) (ctx : Context) (u : userPtr) :
  ctx ≠ nilContext →
  ∃ h' ctx', SetUserContext h ctx u = Ok (h', ctx')
             ∧ UserFromContext h' ctx' = Ok (u, true).
Proof.
  intros Hnil. eexists _, _. split.
  - by apply SetUserContext_ok.
  - apply UserFromContext_newest.
Qed.

Lemma SetUserContext_roundtrip_witness :
  ctxRef 0 ≠ nilContext
  ∧ ∃ h' ctx',
      SetUserContext [cancelCtx Background] (ctxRef 0) (userAt 7) = Ok (h', ctx')
      ∧ UserFromContext h' ctx' = Ok (userAt 7, true).
Proof.
  split; [discriminate|].
  apply (SetUserContext_roundtrip [cancelCtx Background] (ctxRef 0) (userAt 7)).
  discriminate.
Defined.

(** C10. Nil principal: for every (non-nil) context [ctx], attaching the
    nil pointer and reading it back returns [(nil, true)]: the flag says
    that an association of the right type exists, not that the principal
    is non-nil, and the same flag comes back for a real principal. *)
Theorem SetUserContext_nilUser_present (h : heap) (ctx : Context) :
  ctx ≠ nilContext →
  ∃ h' ctx', SetUserContext h ctx nilUser = Ok (h', ctx')
             ∧ UserFromContext h' ctx' = Ok (nilUser, true)
             ∧ ∀ a, ∃ h'' ctx'', SetUserContext h ctx (userAt a) = Ok (h'', ctx'')
                      ∧ snd <$> UserFromContext h'' ctx'' = snd <$> UserFromContext h' ctx'.
Proof.
  intros Hnil. eexists _, _. split_and!.
  - by apply SetUserContext_ok.
  - apply UserFromContext_newest.
  - intros a. eexists _, _. split; [by apply SetUserContext_ok|].
    by rewrite !UserFromContext_newest.
Qed.

Lemma SetUserContext_nilUser_present_witness :
  Background ≠ nilContext
  ∧ ∃ h' ctx', SetUserContext [] Background nilUser = Ok (h', ctx')
       ∧ UserFromContext h' ctx' = Ok (nilUser, true)
       ∧ ∀ a, ∃ h'' ctx'', SetUserContext [] Background (userAt a) = Ok (h'', ctx'')
                ∧ snd <$> UserFromContext h'' ctx'' = snd <$> UserFromContext h' ctx'.
Proof.
  split; [discriminate|].
  apply (SetUserContext_nilUser_present [] Background). discriminate.
Defined.

(** A heap as a server builds it: a cancellable request context, then a
    value that some other middleware stored under the plain string
    "authenticated_user". *)
Lemma sampleHeap_wf :
  wf [cancelCtx Background;
      valueCtx (ctxRef 0) (anyString "authenticated_user") (anyUser (userAt 1))].
Proof.
  apply (wf_alloc [cancelCtx Background]); [|simpl; lia].
  apply (wf_alloc []); [apply wf_empty|done].
Qed.

Lemma sampleHeap_not_passed :
  ¬ PassedThrough
      [cancelCtx Background;
       valueCtx (ctxRef 0) (anyString "authenticated_user") (anyUser (userAt 1))]
      (ctxRef 1).
Proof.
  intros H. inversion H as [a p u Ha|a n Ha Hp]; simplify_eq/=.
  inversion Hp as [a p u Ha|a n Ha Hp']; simplify_eq/=.
  inversion Hp'.
Qed.

(** C2. Absence: for every (non-nil) context of a well-formed heap that
    never passed through [SetUserContext], [UserFromContext] returns the
    nil principal and [false]; it returns, and does not panic. *)
Theorem UserFromContext_never_set (h : heap) (ctx : Context) :
  wf h → allocated h ctx → ctx ≠ nilContext →
  ¬ PassedThrough h ctx →
  UserFromContext h ctx = Ok (nilUser, false).
Proof. apply UserFromContext_absent. Qed.

Lemma UserFromContext_never_set_witness :
  UserFromContext
    [cancelCtx Background;
     valueCtx (ctxRef 0) (anyString "authenticated_user") (anyUser (userAt 1))]
    (ctxRef 1)
  = Ok (nilUser, false).
Proof.
  apply (UserFromContext_never_set
           [cancelCtx Background;
            valueCtx (ctxRef 0) (anyString "authenticated_user") (anyUser (userAt 1))]
           (ctxRef 1)).
  - apply sampleHeap_wf.
  - simpl. lia.
  - discriminate.
  - apply sampleHeap_not_passed.
Defined.

(** C5. Private key: [userContextKey] is not the plain string
    "authenticated_user".  On every (non-nil) context of a well-formed
    heap, a value stored under a plain string key [s] (that string
    included) leaves the answer of [UserFromContext] as it was, so it is
    never returned as the principal; and after [SetUserContext] a lookup
    under any plain string key finds what it found before, never the
    principal. *)
Theorem userContextKey_no_collision
    (h : heap) (ctx : Context) (s : string) (v : any) (u : userPtr) :
  wf h → allocated h ctx → ctx ≠ nilContext →
  userContextKey ≠ anyString "authenticated_user"
  ∧ (∃ h' ctx', WithValue h ctx (anyString s) v = Ok (h', ctx')
       ∧ UserFromContext h' ctx' = UserFromContext h ctx
       ∧ (¬ PassedThrough h ctx → UserFromContext h' ctx' = Ok (nilUser, false)))
  ∧ (∃ h' ctx', SetUserContext h ctx u = Ok (h', ctx')
       ∧ Value h' ctx' (anyString s) = Value h ctx (anyString s)).
Proof.
  intros Hwf Hc Hnil. split_and!; [done| |].
  - eexists _, _. split; [by apply WithValue_ok|].
    rewrite UserFromContext_other_key by done.
    split; [done|]. intros Hpass. by apply UserFromContext_absent.
  - eexists _, _. split; [by apply SetUserContext_ok|].
    by apply Value_newest_miss.
Qed.

Lemma userContextKey_no_collision_witness :
  userContextKey ≠ anyString "authenticated_user"
  ∧ (∃ h' ctx',
       WithValue [cancelCtx Background] (ctxRef 0)
         (anyString "authenticated_user") (anyUser (userAt 1)) = Ok (h', ctx')
       ∧ UserFromContext h' ctx' = UserFromContext [cancelCtx Background] (ctxRef 0)
       ∧ (¬ PassedThrough [cancelCtx Background] (ctxRef 0) →
          UserFromContext h' ctx' = Ok (nilUser, false)))
  ∧ (∃ h' ctx',
       SetUserContext [cancelCtx Background] (ctxRef 0) (userAt 2) = Ok (h', ctx')
       ∧ Value h' ctx' (anyString "authenticated_user")
         = Value [cancelCtx Background] (ctxRef 0) (anyString "authenticated_user")).
Proof.
  apply (userContextKey_no_collision [cancelCtx Background] (ctxRef 0)
           "authenticated_user" (anyUser (userAt 1)) (userAt 2)).
  - apply (wf_alloc []); [apply wf_empty|done].
  - simpl. lia.
  - discriminate.
Defined.

(** C6. Frame: on a well-formed heap, [SetUserContext] on a (non-nil)
    context [ctx] returns, and all it does is allocate one node whose
    parent is [ctx]: every node that was there is unchanged, every context
    that was there answers every lookup as before, and [UserFromContext]
    on the original [ctx] returns what it returned before the call. *)
Theorem SetUserContext_frame (h : heap) (ctx : Context) (u : userPtr) :
  wf h → allocated h ctx → ctx ≠ nilContext →
  ∃ h' ctx', SetUserContext h ctx u = Ok (h', ctx')
    ∧ h' = h ++ [valueCtx ctx userContextKey (anyUser u)]
    ∧ (∀ a, a < length h → h' !! a = h !! a)
    ∧ (∀ c key, allocated h c → Value h' c key = Value h c key)
    ∧ UserFromContext h' ctx = UserFromContext h ctx.
Proof.
  intros Hwf Hc Hnil. eexists _, _. split_and!.
  - by apply SetUserContext_ok.
  - done.
  - intros a Ha. by apply lookup_app_l.
  - intros c key Hcc. by apply Value_frame.
  - by apply UserFromContext_frame.
Qed.

Lemma SetUserContext_frame_witness :
  ∃ h' ctx',
    SetUserContext [valueCtx Background userContextKey (anyUser (userAt 1))]
      (ctxRef 0) (userAt 2) = Ok (h', ctx')
    ∧ h' = [valueCtx Background userContextKey (anyUser (userAt 1))]
           ++ [valueCtx (ctxRef 0) userContextKey (anyUser (userAt 2))]
    ∧ (∀ a, a < length [valueCtx Background userContextKey (anyUser (userAt 1))] →
         h' !! a = [valueCtx Background userContextKey (anyUser (userAt 1))] !! a)
    ∧ (∀ c key, allocated [valueCtx Background userContextKey (anyUser (userAt 1))] c →
         Value h' c key
         = Value [valueCtx Background userContextKey (anyUser (userAt 1))] c key)
    ∧ UserFromContext h' (ctxRef 0)
      = UserFromContext [valueCtx Background userContextKey (anyUser (userAt 1))] (ctxRef 0).
Proof.
  apply (SetUserContext_frame [valueCtx Background userContextKey (anyUser (userAt 1))]
           (ctxRef 0) (userAt 2)).
  - apply (wf_alloc []); [apply wf_empty|done].
  - simpl. lia.
  - discriminate.
Defined.

(** The original context of the sample above still yields the first
    principal after a second one was attached to a context derived from it. *)
Example SetUserContext_frame_sample :
  UserFromContext
    [valueCtx Background userContextKey (anyUser (userAt 1));
     valueCtx (ctxRef 0) userContextKey (anyUser (userAt 2))] (ctxRef 0)
  = Ok (userAt 1, true)
  ∧ UserFromContext
      [valueCtx Background userContextKey (anyUser (userAt 1));
       valueCtx (ctxRef 0) userContextKey (anyUser (userAt 2))] (ctxRef 1)
    = Ok (userAt 2, true).
Proof. split; reflexivity. Qed.

(** ** The error taxonomy *)

(** C3. The four canonical errors carry the status codes of the spec:
    401 for missing, invalid and expired credentials, 403 for access
    denied. *)
Theorem canonical_error_codes :
  Code ErrMissingCredentials = 401%Z
  ∧ Code ErrInvalidCredentials = 401%Z
  ∧ Code ErrExpiredCredentials = 401%Z
  ∧ Code ErrAccessDenied = 403%Z.
Proof. by split_and!. Qed.

(** C9. Accessors: for every [AuthError] [e], [Error] returns exactly the
    message, whatever cause is wrapped (the cause is not part of the
    text), and [Unwrap] returns exactly the cause. *)
Theorem AuthError_accessors (e : AuthError) :
  AuthError_Error e = Message e
  ∧ AuthError_Unwrap e = Err e
  ∧ ∀ cause, AuthError_Error {| Code := Code e; Message := Message e; Err := cause |}
             = AuthError_Error e.
Proof. by split_and!. Qed.

(** ** Roles *)

Lemma hasRole_elem_of (granted : list string) (role : string) :
  hasRole granted role = true ↔ role ∈ granted.
Proof.
  unfold hasRole. rewrite existsb_exists, list_elem_of_In. split.
  - intros (x & Hx & Heq). apply String.eqb_eq in Heq. by subst.
  - intros Hin. exists role. split; [done|]. apply String.eqb_refl.
Qed.

Lemma rolesIntersect_common (required granted : list string) :
  rolesIntersect required granted = true
  ↔ ∃ role, role ∈ required ∧ role ∈ granted.
Proof.
  unfold rolesIntersect. rewrite existsb_exists.
  split; intros (role & Hreq & Hgr); exists role.
  - apply list_elem_of_In in Hreq. apply hasRole_elem_of in Hgr. done.
  - apply list_elem_of_In in Hreq. apply hasRole_elem_of in Hgr. done.
Qed.

Lemma rolesIntersect_disjoint (required granted : list string) :
  rolesIntersect required granted = false
  ↔ ¬ ∃ role, role ∈ required ∧ role ∈ granted.
Proof.
  rewrite <- rolesIntersect_common. by destruct (rolesIntersect required granted).
Qed.

Lemma elem_of_roleSet (u : AuthenticatedUser) (role : string) :
  role ∈ roleSet u ↔ role ∈ Roles u.
Proof. unfold roleSet. apply elem_of_list_to_set. Qed.

(** C8, as the claim has it, fails: a principal may hold the same role
    twice, and two principals with the same set of roles differ when their
    slices are ordered differently. *)
Lemma Roles_not_a_set :
  ¬ NoDup (Roles userDup)
  ∧ roleSet userAB = roleSet userBA
  ∧ Roles userAB ≠ Roles userBA.
Proof.
  split_and!.
  - intros Hnd. apply NoDup_cons in Hnd as [Hnotin _]. apply Hnotin. by left.
  - apply set_eq. intros x. rewrite !elem_of_roleSet. simpl.
    rewrite !list_elem_of_In. simpl. tauto.
  - discriminate.
Qed.

(** C8, amended. [Roles] is a slice, a finite sequence of strings: any
    sequence, in any order and with repeated entries, is the [Roles] of
    some principal.  The set of roles it stands for is the set of its
    elements, and membership is by case-sensitive exact match: a role is
    in it iff it is equal, byte for byte, to some entry. *)
Theorem Roles_is_a_sequence (l : list string) :
  (∃ u, Roles u = l)
  ∧ (∀ u role, role ∈ roleSet u
       ↔ ∃ i entry, Roles u !! i = Some entry ∧ String.eqb role entry = true)
  ∧ "admin" ∈ roleSet admin
  ∧ "Admin" ∉ roleSet admin.
Proof.
  split_and!.
  - by exists {| ID := ""; Username := ""; Roles := l; Metadata := ∅ |}.
  - intros u role. rewrite elem_of_roleSet, list_elem_of_lookup. split.
    + intros [i Hi]. exists i, role. split; [done|]. apply String.eqb_refl.
    + intros (i & entry & Hi & Heq). apply String.eqb_eq in Heq. subst. by exists i.
  - apply elem_of_roleSet. by left.
  - rewrite elem_of_roleSet. intros Hin.
    apply list_elem_of_In in Hin as [Heq|[]]. discriminate.
Qed.

(** ** Middleware *)

Section scheme_facts.
Variable opts : AuthOptions.
Variable users : gmap addr AuthenticatedUser.
Variable authenticate : heap → Context → Request → userPtr * error.
Implicit Types (h : heap) (r : Request) (p : userPtr) (next : Handler).

Lemma Request_Context_not_nil r : Request_Context r ≠ nilContext.
Proof. unfold Request_Context. by destruct (reqContext r). Qed.

(** Attaching the principal always succeeds, and the downstream request
    carries it. *)
Lemma attach_ok h r p :
  ∃ h' ctx', SetUserContext h (Request_Context r) p = Ok (h', ctx')
    ∧ attach h r p = Ok (Proceed h' (Request_WithContext r ctx'))
    ∧ UserFromContext h' ctx' = Ok (p, true).
Proof.
  eexists _, _. split_and!.
  - apply SetUserContext_ok, Request_Context_not_nil.
  - unfold attach. by rewrite SetUserContext_ok by apply Request_Context_not_nil.
  - apply UserFromContext_newest.
Qed.

Lemma dispatchWithRoles_granted roles h r p u :
  authenticate h (Request_Context r) r = (p, nilError) →
  deref users p = Ok u →
  rolesIntersect roles (Roles u) = true →
  dispatchWithRoles users authenticate roles h r = attach h r p.
Proof.
  intros Hauth Hu Hroles. unfold dispatchWithRoles. rewrite Hauth.
  destruct (attach_ok h r p) as (h' & ctx' & _ & -> & _). simpl.
  rewrite Hu. simpl. by rewrite Hroles.
Qed.

Lemma dispatchWithRoles_denied roles h r p u :
  authenticate h (Request_Context r) r = (p, nilError) →
  deref users p = Ok u →
  rolesIntersect roles (Roles u) = false →
  dispatchWithRoles users authenticate roles h r = Ok Denied.
Proof.
  intros Hauth Hu Hroles. unfold dispatchWithRoles. rewrite Hauth.
  destruct (attach_ok h r p) as (h' & ctx' & _ & -> & _). simpl.
  rewrite Hu. simpl. by rewrite Hroles.
Qed.

Lemma dispatchWithRoles_rejected roles h r p e :
  authenticate h (Request_Context r) r = (p, e) →
  e ≠ nilError →
  dispatchWithRoles users authenticate roles h r = Ok Rejected.
Proof.
  intros Hauth He. unfold dispatchWithRoles. rewrite Hauth. by destruct e.
Qed.

Lemma dispatch_rejected h r p e :
  authenticate h (Request_Context r) r = (p, e) →
  e ≠ nilError →
  dispatch authenticate h r = Ok Rejected.
Proof.
  intros Hauth He. unfold dispatch. rewrite Hauth. by destruct e.
Qed.

End scheme_facts.

(** C4. Role gate of [MiddlewareWithRoles], for every set of required
    roles and every principal [u] that [Authenticate] returned: the request
    proceeds to the downstream handler, with the principal attached to its
    context, iff the roles of the principal and the required roles have at
    least one element in common; otherwise [ForbiddenHandler] runs in its
    place.  One common role is enough. *)
Theorem MiddlewareWithRoles_intersection
    (opts : AuthOptions) (users : gmap addr AuthenticatedUser)
    (authenticate : heap → Context → Request → userPtr * error)
    (roles : list string) (next : Handler)
    (h : heap) (r : Request) (p : userPtr) (u : AuthenticatedUser) :
  authenticate h (Request_Context r) r = (p, nilError) →
  deref users p = Ok u →
  ((∃ h' r', dispatchWithRoles users authenticate roles h r = Ok (Proceed h' r'))
   ↔ ∃ role, role ∈ roles ∧ role ∈ Roles u)
  ∧ ((∃ role, role ∈ roles ∧ role ∈ Roles u) →
     ∃ h' r', dispatchWithRoles users authenticate roles h r = Ok (Proceed h' r')
       ∧ UserFromContext h' (reqContext r') = Ok (p, true)
       ∧ schemeMiddlewareWithRoles opts users authenticate roles next h r = next h' r')
  ∧ (¬ (∃ role, role ∈ roles ∧ role ∈ Roles u) →
     dispatchWithRoles users authenticate roles h r = Ok Denied
     ∧ schemeMiddlewareWithRoles opts users authenticate roles next h r
       = forbiddenHandler opts h r).
Proof.
  intros Hauth Hu.
  assert ((∃ role, role ∈ roles ∧ role ∈ Roles u) →
     ∃ h' r', dispatchWithRoles users authenticate roles h r = Ok (Proceed h' r')
       ∧ UserFromContext h' (reqContext r') = Ok (p, true)
       ∧ schemeMiddlewareWithRoles opts users authenticate roles next h r = next h' r')
    as Hgranted.
  { intros Hcommon%rolesIntersect_common.
    destruct (attach_ok h r p) as (h' & ctx' & _ & Hattach & Hread).
    exists h', (Request_WithContext r ctx').
    pose proof (dispatchWithRoles_granted users authenticate roles h r p u
                  Hauth Hu Hcommon) as Hd.
    rewrite Hattach in Hd. split_and!; [done..|].
    unfold schemeMiddlewareWithRoles. by rewrite Hd. }
  assert (¬ (∃ role, role ∈ roles ∧ role ∈ Roles u) →
     dispatchWithRoles users authenticate roles h r = Ok Denied
     ∧ schemeMiddlewareWithRoles opts users authenticate roles next h r
       = forbiddenHandler opts h r) as Hdenied.
  { intros Hnone%rolesIntersect_disjoint.
    pose proof (dispatchWithRoles_denied users authenticate roles h r p u
                  Hauth Hu Hnone) as Hd.
    split; [done|]. unfold schemeMiddlewareWithRoles. by rewrite Hd. }
  split_and!; [|done..].
  split.
  - intros (h' & r' & Hd).
    destruct (rolesIntersect roles (Roles u)) eqn:Hri.
    + by apply rolesIntersect_common.
    + apply rolesIntersect_disjoint, Hdenied in Hri as [Hd' _]. congruence.
  - intros (h' & r' & Hd & _)%Hgranted. eauto.
Qed.

(** The example of the spec: a principal with the single role "editor",
    whatever the scheme returned it from. *)
Lemma MiddlewareWithRoles_intersection_witness :
  ((∃ h' r', dispatchWithRoles {[ 0 := editor ]} (fun _ _ _ => (userAt 0, nilError))
               ["admin"; "editor"] [] (mkRequest Background []) = Ok (Proceed h' r'))
   ↔ ∃ role, role ∈ ["admin"; "editor"] ∧ role ∈ Roles editor)
  ∧ ((∃ role, role ∈ ["admin"; "editor"] ∧ role ∈ Roles editor) →
     ∃ h' r', dispatchWithRoles {[ 0 := editor ]} (fun _ _ _ => (userAt 0, nilError))
                ["admin"; "editor"] [] (mkRequest Background []) = Ok (Proceed h' r')
       ∧ UserFromContext h' (reqContext r') = Ok (userAt 0, true)
       ∧ schemeMiddlewareWithRoles zeroAuthOptions {[ 0 := editor ]}
           (fun _ _ _ => (userAt 0, nilError)) ["admin"; "editor"]
           (fun _ _ => Ok (mkResponse 200 "ok")) [] (mkRequest Background [])
         = Ok (mkResponse 200 "ok"))
  ∧ (¬ (∃ role, role ∈ ["admin"; "editor"] ∧ role ∈ Roles editor) →
     dispatchWithRoles {[ 0 := editor ]} (fun _ _ _ => (userAt 0, nilError))
       ["admin"; "editor"] [] (mkRequest Background []) = Ok Denied
     ∧ schemeMiddlewareWithRoles zeroAuthOptions {[ 0 := editor ]}
         (fun _ _ _ => (userAt 0, nilError)) ["admin"; "editor"]
         (fun _ _ => Ok (mkResponse 200 "ok")) [] (mkRequest Background [])
       = forbiddenHandler zeroAuthOptions [] (mkRequest Background [])).
Proof.
  apply (MiddlewareWithRoles_intersection zeroAuthOptions {[ 0 := editor ]}
           (fun _ _ _ => (userAt 0, nilError)) ["admin"; "editor"]
           (fun _ _ => Ok (mkResponse 200 "ok")) [] (mkRequest Background [])
           (userAt 0) editor).
  - reflexivity.
  - reflexivity.
Defined.

Example editor_passes_admin_or_editor :
  schemeMiddlewareWithRoles zeroAuthOptions {[ 0 := editor ]}
    (fun _ _ _ => (userAt 0, nilError)) ["admin"; "editor"]
    (fun h r => match UserFromContext h (reqContext r) with
                | Ok (userAt 0, true) => Ok (mkResponse 200 "principal")
                | _ => Ok (mkResponse 200 "nobody")
                end)
    [] (mkRequest Background [])
  = Ok (mkResponse 200 "principal").
Proof. reflexivity. Qed.

Example editor_denied_by_admin :
  schemeMiddlewareWithRoles zeroAuthOptions {[ 0 := editor ]}
    (fun _ _ _ => (userAt 0, nilError)) ["admin"]
    (fun _ _ => Ok (mkResponse 200 "ok"))
    [] (mkRequest Background [])
  = Ok (mkResponse 403 "Forbidden").
Proof. reflexivity. Qed.

(** Nothing configured: both handler fields of the zero value are nil, so
    whatever answers a failed request is supplied by the middleware. *)
Lemma zeroAuthOptions_handlers :
  UnauthorizedHandler zeroAuthOptions = None ∧ ForbiddenHandler zeroAuthOptions = None.
Proof. done. Qed.

(** C7. Default failure handlers: when no handler is configured in the
    options, a request whose authentication fails is answered with a
    generic 401 response, by [Middleware] and by [MiddlewareWithRoles], and
    a request whose principal misses the required roles is answered with a
    generic 403 response. *)
Theorem default_failure_handlers
    (opts : AuthOptions) (users : gmap addr AuthenticatedUser)
    (authenticate : heap → Context → Request → userPtr * error)
    (roles : list string) (next : Handler) (h : heap) (r : Request) :
  UnauthorizedHandler opts = None →
  ForbiddenHandler opts = None →
  (∀ p e, authenticate h (Request_Context r) r = (p, e) → e ≠ nilError →
     respStatus <$> schemeMiddleware opts authenticate next h r = Ok 401%Z
     ∧ respStatus <$> schemeMiddlewareWithRoles opts users authenticate roles next h r
       = Ok 401%Z)
  ∧ (∀ p u, authenticate h (Request_Context r) r = (p, nilError) →
       deref users p = Ok u →
       rolesIntersect roles (Roles u) = false →
       respStatus <$> schemeMiddlewareWithRoles opts users authenticate roles next h r
       = Ok 403%Z).
Proof.
  intros Hunauth Hforbid. split.
  - intros p e Hauth He.
    unfold schemeMiddleware, schemeMiddlewareWithRoles.
    rewrite (dispatch_rejected authenticate h r p e Hauth He).
    rewrite (dispatchWithRoles_rejected users authenticate roles h r p e Hauth He).
    simpl. unfold unauthorizedHandler. by rewrite Hunauth.
  - intros p u Hauth Hu Hroles.
    unfold schemeMiddlewareWithRoles.
    rewrite (dispatchWithRoles_denied users authenticate roles h r p u Hauth Hu Hroles).
    simpl. unfold forbiddenHandler. by rewrite Hforbid.
Qed.

Lemma default_failure_handlers_witness :
  (∀ p e, (nilUser, asError ErrMissingCredentials) = (p, e) → e ≠ nilError →
     respStatus <$> schemeMiddleware zeroAuthOptions
         (fun _ _ _ => (nilUser, asError ErrMissingCredentials))
         (fun _ _ => Ok (mkResponse 200 "ok")) [] (mkRequest Background [])
       = Ok 401%Z
     ∧ respStatus <$> schemeMiddlewareWithRoles zeroAuthOptions {[ 0 := editor ]}
         (fun _ _ _ => (nilUser, asError ErrMissingCredentials)) ["admin"]
         (fun _ _ => Ok (mkResponse 200 "ok")) [] (mkRequest Background [])
       = Ok 401%Z)
  ∧ (∀ p u, (nilUser, asError ErrMissingCredentials) = (p, nilError) →
       deref {[ 0 := editor ]} p = Ok u →
       rolesIntersect ["admin"] (Roles u) = false →
       respStatus <$> schemeMiddlewareWithRoles zeroAuthOptions {[ 0 := editor ]}
         (fun _ _ _ => (nilUser, asError ErrMissingCredentials)) ["admin"]
         (fun _ _ => Ok (mkResponse 200 "ok")) [] (mkRequest Background [])
       = Ok 403%Z).
Proof.
  apply (default_failure_handlers zeroAuthOptions {[ 0 := editor ]}
           (fun _ _ _ => (nilUser, asError ErrMissingCredentials)) ["admin"]
           (fun _ _ => Ok (mkResponse 200 "ok")) [] (mkRequest Background [])).
  - reflexivity.
  - reflexivity.
Defined.

Example missing_credentials_answered_401 :
  schemeMiddleware zeroAuthOptions
    (fun _ _ _ => (nilUser, asError ErrMissingCredentials))
    (fun _ _ => Ok (mkResponse 200 "ok")) [] (mkRequest Background [])
  = Ok (mkResponse 401 "Unauthorized").
Proof. reflexivity. Qed.

(** ** Further properties of the context helpers *)

Section helper_composition.
Implicit Types (h : heap) (ctx c : Context) (u : userPtr) (key : any).

Lemma WithCancel_ok h c :
  c ≠ nilContext → WithCancel h c = Ok (h ++ [cancelCtx c], ctxRef (length h)).
Proof. by destruct c. Qed.

Lemma derives_app h h' : derives h h' → ∃ h2, h' = h ++ h2.
Proof.
  induction 1 as [h|h h1 c key val h' c' _ [h2 ->] Heq|h h1 c h' c' _ [h2 ->] Heq].
  - exists []. by rewrite app_nil_r.
  - apply WithValue_inv in Heq as (_ & -> & _).
    eexists. by rewrite <- app_assoc.
  - destruct c; simplify_eq/=; eexists; by rewrite <- app_assoc.
Qed.

Lemma assertUser_found x u : assertUser x = (u, true) ↔ x = anyUser u.
Proof. destruct x; simpl; split; intros; by simplify_eq. Qed.

Lemma assertUser_not_found x p : assertUser x = (p, false) → p = nilUser.
Proof. destruct x; simpl; intros; by simplify_eq. Qed.

Lemma UserFromContext_found h c u :
  UserFromContext h c = Ok (u, true) ↔ Value h c userContextKey = Ok (anyUser u).
Proof.
  unfold UserFromContext.
  destruct (Value h c userContextKey) as [x| |]; simpl; [|done..].
  split.
  - intros [= Hx]. apply assertUser_found in Hx. by subst.
  - intros [= ->]. done.
Qed.

(** The walk ends on a principal exactly when the context carries it. *)
Lemma value_carries h f c u :
  wf h → rank c ≤ f →
  value f h c userContextKey = Ok (anyUser u) ↔ Carries h c u.
Proof.
  intros Hwf Hf. split.
  - revert c Hf. induction f as [|f IH]; intros c Hf; destruct c as [| | |a];
      cbn [value rank] in *; try done; try lia.
    destruct (h !! a) as [n|] eqn:Ha; [|done].
    pose proof (older_rank _ _ (Hwf _ _ Ha)) as Hpr.
    destruct n as [p k v|p]; cbn [parentOf] in Hpr.
    + case_decide as Hk.
      * intros [= ->]. subst k. by eapply carries_here.
      * intros Hv. eapply carries_value; [done|congruence|]. apply IH; [lia|done].
    + intros Hv. eapply carries_cancel; [done|]. apply IH; [lia|done].
  - intros Hcar. revert f Hf.
    induction Hcar as [a p u Ha|a p k v u Ha Hk _ IH|a p u Ha _ IH]; intros f Hf;
      (destruct f as [|f]; cbn [rank] in Hf; [lia|]); cbn [value]; rewrite Ha.
    + by rewrite decide_True.
    + rewrite decide_False by congruence.
      pose proof (older_rank _ _ (Hwf _ _ Ha)) as Hpr. cbn [parentOf] in Hpr.
      apply IH. lia.
    + pose proof (older_rank _ _ (Hwf _ _ Ha)) as Hpr. cbn [parentOf] in Hpr.
      apply IH. lia.
Qed.

End helper_composition.

(** X1. Attaching twice: the derived context yields the principal that was
    attached last, and the context in between keeps the one it was given. *)
Theorem SetUserContext_twice (h : heap) (ctx : Context) (u1 u2 : userPtr) :
  wf h → allocated h ctx → ctx ≠ nilContext →
  ∃ h1 ctx1 h2 ctx2,
    SetUserContext h ctx u1 = Ok (h1, ctx1)
    ∧ SetUserContext h1 ctx1 u2 = Ok (h2, ctx2)
    ∧ UserFromContext h2 ctx2 = Ok (u2, true)
    ∧ UserFromContext h2 ctx1 = Ok (u1, true).
Proof.
  intros Hwf Hc Hnil.
  pose proof (SetUserContext_ok h ctx u1 Hnil) as H1.
  destruct (SetUserContext_wf _ _ _ _ _ Hwf Hc H1) as (Hwf1 & Hc1 & Hnil1).
  eexists _, _, _, _. split_and!; [done|by apply SetUserContext_ok| |].
  - apply UserFromContext_newest.
  - rewrite UserFromContext_frame by done. apply UserFromContext_newest.
Qed.

Lemma SetUserContext_twice_witness :
  ∃ h1 ctx1 h2 ctx2,
    SetUserContext [cancelCtx Background] (ctxRef 0) (userAt 1) = Ok (h1, ctx1)
    ∧ SetUserContext h1 ctx1 (userAt 2) = Ok (h2, ctx2)
    ∧ UserFromContext h2 ctx2 = Ok (userAt 2, true)
    ∧ UserFromContext h2 ctx1 = Ok (userAt 1, true).
Proof.
  apply (SetUserContext_twice [cancelCtx Background] (ctxRef 0) (userAt 1) (userAt 2)).
  - apply (wf_alloc []); [apply wf_empty|done].
  - simpl. lia.
  - discriminate.
Defined.

(** X2. The principal survives further derivation: a context derived from
    the result of [SetUserContext] by [WithValue] under any other key, or
    by [WithCancel], still yields the principal. *)
Theorem principal_survives_derivation
    (h : heap) (ctx : Context) (u : userPtr) (key val : any) :
  wf h → allocated h ctx → ctx ≠ nilContext →
  key ≠ userContextKey → key ≠ anyNil →
  ∃ h1 ctx1, SetUserContext h ctx u = Ok (h1, ctx1)
    ∧ (∃ h2 ctx2, WithValue h1 ctx1 key val = Ok (h2, ctx2)
         ∧ UserFromContext h2 ctx2 = Ok (u, true))
    ∧ (∃ h2 ctx2, WithCancel h1 ctx1 = Ok (h2, ctx2)
         ∧ UserFromContext h2 ctx2 = Ok (u, true)).
Proof.
  intros Hwf Hc Hnil Hkey Hkn.
  pose proof (SetUserContext_ok h ctx u Hnil) as H1.
  destruct (SetUserContext_wf _ _ _ _ _ Hwf Hc H1) as (Hwf1 & Hc1 & Hnil1).
  eexists _, _. split_and!; [done| |].
  - eexists _, _. split; [by apply WithValue_ok|].
    rewrite UserFromContext_other_key by done. apply UserFromContext_newest.
  - eexists _, _. split; [by apply WithCancel_ok|].
    unfold UserFromContext. rewrite Value_newest_cancel by done.
    apply UserFromContext_newest.
Qed.

Lemma principal_survives_derivation_witness :
  ∃ h1 ctx1, SetUserContext [] Background (userAt 1) = Ok (h1, ctx1)
    ∧ (∃ h2 ctx2, WithValue h1 ctx1 (anyString "request_id") (anyInt 42) = Ok (h2, ctx2)
         ∧ UserFromContext h2 ctx2 = Ok (userAt 1, true))
    ∧ (∃ h2 ctx2, WithCancel h1 ctx1 = Ok (h2, ctx2)
         ∧ UserFromContext h2 ctx2 = Ok (userAt 1, true)).
Proof.
  apply (principal_survives_derivation [] Background (userAt 1)
           (anyString "request_id") (anyInt 42)).
  - apply wf_empty.
  - exact I.
  - discriminate.
  - discriminate.
  - discriminate.
Defined.

(** X3. [SetUserContext] hides nothing: through the derived context, a
    lookup under every key other than [userContextKey] gives what it gave
    on the original context. *)
Theorem SetUserContext_keeps_other_keys
    (h : heap) (ctx : Context) (u : userPtr) (key : any) :
  wf h → allocated h ctx → ctx ≠ nilContext →
  key ≠ userContextKey →
  ∃ h' ctx', SetUserContext h ctx u = Ok (h', ctx')
    ∧ Value h' ctx' key = Value h ctx key.
Proof.
  intros Hwf Hc Hnil Hkey. eexists _, _. split; [by apply SetUserContext_ok|].
  by apply Value_newest_miss.
Qed.

Lemma SetUserContext_keeps_other_keys_witness :
  ∃ h' ctx',
    SetUserContext [valueCtx Background (anyContextKey "request_id") (anyInt 42)]
      (ctxRef 0) (userAt 1) = Ok (h', ctx')
    ∧ Value h' ctx' (anyContextKey "request_id")
      = Value [valueCtx Background (anyContextKey "request_id") (anyInt 42)]
          (ctxRef 0) (anyContextKey "request_id").
Proof.
  apply (SetUserContext_keeps_other_keys
           [valueCtx Background (anyContextKey "request_id") (anyInt 42)]
           (ctxRef 0) (userAt 1) (anyContextKey "request_id")).
  - apply (wf_alloc []); [apply wf_empty|done].
  - simpl. lia.
  - discriminate.
  - discriminate.
Defined.

(** X4. What [UserFromContext] returns for a context is fixed once the
    context exists: no sequence of later derivations, from it or from any
    other context, changes the answer. *)
Theorem UserFromContext_stable (h h' : heap) (ctx : Context) :
  wf h → allocated h ctx → derives h h' →
  UserFromContext h' ctx = UserFromContext h ctx.
Proof.
  intros Hwf Hc [h2 ->]%derives_app. by apply UserFromContext_frame.
Qed.

Lemma UserFromContext_stable_witness :
  UserFromContext
    [valueCtx Background userContextKey (anyUser (userAt 1));
     valueCtx (ctxRef 0) userContextKey (anyUser (userAt 2));
     cancelCtx (ctxRef 0)] (ctxRef 0)
  = UserFromContext [valueCtx Background userContextKey (anyUser (userAt 1))] (ctxRef 0).
Proof.
  apply (UserFromContext_stable
           [valueCtx Background userContextKey (anyUser (userAt 1))]
           [valueCtx Background userContextKey (anyUser (userAt 1));
            valueCtx (ctxRef 0) userContextKey (anyUser (userAt 2));
            cancelCtx (ctxRef 0)] (ctxRef 0)).
  - apply (wf_alloc []); [apply wf_empty|done].
  - simpl. lia.
  - apply (derives_WithCancel _
             [valueCtx Background userContextKey (anyUser (userAt 1));
              valueCtx (ctxRef 0) userContextKey (anyUser (userAt 2))]
             (ctxRef 0) _ (ctxRef 2)); [|reflexivity].
    apply (derives_WithValue _
             [valueCtx Background userContextKey (anyUser (userAt 1))]
             (ctxRef 0) userContextKey (anyUser (userAt 2)) _ (ctxRef 1));
      [apply derives_refl|reflexivity].
Defined.

(** X5. The helpers panic on the nil context and on no other: on a
    well-formed heap, [SetUserContext] and [UserFromContext] return exactly
    when the context is not nil, and both panic when it is. *)
Theorem helpers_return_iff_not_nil (h : heap) (ctx : Context) (u : userPtr) :
  wf h → allocated h ctx →
  ((∃ res, SetUserContext h ctx u = Ok res) ↔ ctx ≠ nilContext)
  ∧ ((∃ res, UserFromContext h ctx = Ok res) ↔ ctx ≠ nilContext)
  ∧ (ctx = nilContext →
     (∃ msg, SetUserContext h ctx u = Panic msg)
     ∧ (∃ msg, UserFromContext h ctx = Panic msg)).
Proof.
  intros Hwf Hc. split_and!.
  - split.
    + intros [res Hres] ->. by rewrite SetUserContext_nil in Hres.
    + intros Hnil. eexists. by apply SetUserContext_ok.
  - split.
    + intros [res Hres] ->. by rewrite UserFromContext_nil in Hres.
    + intros Hnil. destruct (Value_total h ctx userContextKey Hwf Hc Hnil) as [x Hx].
      unfold UserFromContext. rewrite Hx. by eexists.
  - intros ->. split; eexists; [apply SetUserContext_nil|apply UserFromContext_nil].
Qed.

Lemma helpers_return_iff_not_nil_witness :
  ((∃ res, SetUserContext [cancelCtx Background] nilContext (userAt 1) = Ok res)
   ↔ nilContext ≠ nilContext)
  ∧ ((∃ res, UserFromContext [cancelCtx Background] nilContext = Ok res)
     ↔ nilContext ≠ nilContext)
  ∧ (nilContext = nilContext →
     (∃ msg, SetUserContext [cancelCtx Background] nilContext (userAt 1) = Panic msg)
     ∧ (∃ msg, UserFromContext [cancelCtx Background] nilContext = Panic msg)).
Proof.
  apply (helpers_return_iff_not_nil [cancelCtx Background] nilContext (userAt 1)).
  - apply (wf_alloc []); [apply wf_empty|done].
  - exact I.
Defined.

(** X6. What [UserFromContext] finds: on a well-formed heap it returns
    [(u, true)] exactly when the nearest node keyed by [userContextKey] on
    the chain of the context holds the principal pointer [u]; when there is
    no such node it returns [(nil, false)]; and whenever the flag is false
    the pointer is nil. *)
Theorem UserFromContext_nearest (h : heap) (ctx : Context) :
  wf h → allocated h ctx → ctx ≠ nilContext →
  (∀ u, UserFromContext h ctx = Ok (u, true) ↔ Carries h ctx u)
  ∧ ((∀ u, ¬ Carries h ctx u) → UserFromContext h ctx = Ok (nilUser, false))
  ∧ (∀ p, UserFromContext h ctx = Ok (p, false) → p = nilUser).
Proof.
  intros Hwf Hc Hnil.
  assert (∀ u, Value h ctx userContextKey = Ok (anyUser u) ↔ Carries h ctx u)
    as Hcar by (intros u; apply value_carries; [done|by apply allocated_rank]).
  split_and!.
  - intros u. by rewrite UserFromContext_found.
  - intros Hnone.
    destruct (Value_total h ctx userContextKey Hwf Hc Hnil) as [x Hx].
    unfold UserFromContext. rewrite Hx. simpl.
    destruct x as [| | | | |q|]; try done.
    by apply Hcar, Hnone in Hx.
  - intros p. unfold UserFromContext.
    destruct (Value h ctx userContextKey) as [x| |]; simpl; [|done..].
    intros [= Hx]. by eapply assertUser_not_found.
Qed.

Lemma UserFromContext_nearest_witness :
  (∀ u, UserFromContext
          [valueCtx Background userContextKey (anyUser (userAt 1));
           valueCtx (ctxRef 0) (anyString "request_id") (anyInt 42)] (ctxRef 1)
        = Ok (u, true)
        ↔ Carries
            [valueCtx Background userContextKey (anyUser (userAt 1));
             valueCtx (ctxRef 0) (anyString "request_id") (anyInt 42)] (ctxRef 1) u)
  ∧ ((∀ u, ¬ Carries
             [valueCtx Background userContextKey (anyUser (userAt 1));
              valueCtx (ctxRef 0) (anyString "request_id") (anyInt 42)] (ctxRef 1) u) →
     UserFromContext
       [valueCtx Background userContextKey (anyUser (userAt 1));
        valueCtx (ctxRef 0) (anyString "request_id") (anyInt 42)] (ctxRef 1)
     = Ok (nilUser, false))
  ∧ (∀ p, UserFromContext
            [valueCtx Background userContextKey (anyUser (userAt 1));
             valueCtx (ctxRef 0) (anyString "request_id") (anyInt 42)] (ctxRef 1)
          = Ok (p, false) → p = nilUser).
Proof.
  apply (UserFromContext_nearest
           [valueCtx Background userContextKey (anyUser (userAt 1));
            valueCtx (ctxRef 0) (anyString "request_id") (anyInt 42)] (ctxRef 1)).
  - apply (wf_alloc [valueCtx Background userContextKey (anyUser (userAt 1))]);
      [|simpl; lia].
    apply (wf_alloc []); [apply wf_empty|done].
  - simpl. lia.
  - discriminate.
Defined.

(** X7. On the context of a request the round trip needs no precondition:
    [r.Context()] is never nil, so for every request, also one that was
    built without a context, [SetUserContext] returns and
    [UserFromContext] reads the principal back. *)
Theorem request_context_roundtrip (h : heap) (r : Request) (u : userPtr) :
  ∃ h' ctx', SetUserContext h (Request_Context r) u = Ok (h', ctx')
    ∧ ctx' ≠ nilContext
    ∧ UserFromContext h' ctx' = Ok (u, true).
Proof.
  eexists _, _. split_and!.
  - apply SetUserContext_ok. unfold Request_Context. by destruct (reqContext r).
  - done.
  - apply UserFromContext_newest.
Qed.

(** ** Further properties of the error taxonomy *)

(** X8. The four canonical errors are four different values with four
    different texts, and none of them wraps a cause.  The status code
    tells access denied from the other three and nothing more: missing,
    invalid and expired credentials share it. *)
Theorem canonical_errors_distinct :
  NoDup [ErrInvalidCredentials; ErrExpiredCredentials;
         ErrMissingCredentials; ErrAccessDenied]
  ∧ NoDup (AuthError_Error <$> [ErrInvalidCredentials; ErrExpiredCredentials;
                                ErrMissingCredentials; ErrAccessDenied])
  ∧ Forall (fun e => AuthError_Unwrap e = nilError)
      [ErrInvalidCredentials; ErrExpiredCredentials;
       ErrMissingCredentials; ErrAccessDenied]
  ∧ (∀ e, e ∈ [ErrInvalidCredentials; ErrExpiredCredentials;
               ErrMissingCredentials; ErrAccessDenied] →
       Code e = Code ErrAccessDenied ↔ e = ErrAccessDenied)
  ∧ Code ErrInvalidCredentials = Code ErrExpiredCredentials
  ∧ Code ErrExpiredCredentials = Code ErrMissingCredentials.
Proof.
  split_and!; [| | | |done..].
  - repeat (apply NoDup_cons; split;
            [rewrite !list_elem_of_In; simpl; intros Hin;
             repeat (destruct Hin as [Hin|Hin]; [discriminate|]); done|]).
    apply NoDup_nil_2.
  - simpl. repeat (apply NoDup_cons; split;
            [rewrite !list_elem_of_In; simpl; intros Hin;
             repeat (destruct Hin as [Hin|Hin]; [discriminate|]); done|]).
    apply NoDup_nil_2.
  - repeat constructor.
  - intros e He. apply list_elem_of_In in He. simpl in He.
    destruct He as [<-|[<-|[<-|[<-|[]]]]]; split; intros; (done || discriminate).
Qed.
